(** * Member-detection probe of [cpp_has_something.cpp]

    The source file defines, through the macro [DEFINE_has_member], a class
    template [temp_has_member_<name><T>] whose static member [value] tells
    whether the expression [&T::<name>] is well-formed, and a small program
    that prints that constant for the element types of three vectors.

    Everything the probe does happens while the translation unit is
    compiled.  The development therefore embeds the fragment of the C++
    rules that the probe exercises (qualified member lookup, access
    checking, the typing of unary [&], template argument substitution with
    substitution failure, overload resolution for one argument, [sizeof])
    as executable functions, and the macro-generated class on top of them.
    The rules are those of C++11, the language of the source ([constexpr],
    [decltype]).  Classes may have public, non-virtual base classes; other
    kinds of inheritance are not represented. *)

From Stdlib Require Import ZArith String Ascii.
From stdpp Require Import base option list strings gmap.

Local Open Scope string_scope.

(** ** Types and class members *)

Inductive access := Public | Protected | Private.

(** What a name declared in a class can denote.  [ty] is the type of
    C++ types; the parameter ties the knot with [cpp_type] below. *)
Inductive entity (ty : Type) :=
| Field (t : ty)                 (* non-static data member *)
| BitField (t : ty) (width : N)  (* non-static bit-field *)
| StaticField (t : ty)           (* static data member *)
| Method (sig : ty)              (* non-static member function *)
| StaticMethod (sig : ty)        (* static member function *)
| MethodTemplate                 (* member function template *)
| MemberType (t : ty)            (* nested class, enumeration or typedef *)
| Enumerator (t : ty)            (* enumerator of a nested unscoped enum *)
| DeletedMethod (sig : ty).      (* member function defined as [= delete] *)

Arguments Field {ty} t.
Arguments BitField {ty} t width.
Arguments StaticField {ty} t.
Arguments Method {ty} sig.
Arguments StaticMethod {ty} sig.
Arguments MethodTemplate {ty}.
Arguments MemberType {ty} t.
Arguments Enumerator {ty} t.
Arguments DeletedMethod {ty} sig.

Record member_decl (ty : Type) := Member {
  m_name : string;
  m_access : access;
  m_entity : entity ty
}.

Arguments Member {ty} m_name m_access m_entity.
Arguments m_name {ty} _.
Arguments m_access {ty} _.
Arguments m_entity {ty} _.

(** A class definition: its base classes (public and non-virtual), the
    declarations of its scope in declaration order (the members of an
    anonymous union belong to the scope of the class around it) and the
    class templates it names in [friend] declarations. *)
Record class_def (ty : Type) := ClassDef {
  bases : list ty;
  members : list (member_decl ty);
  friends : list string
}.

Arguments ClassDef {ty} bases members friends.
Arguments bases {ty} _.
Arguments members {ty} _.
Arguments friends {ty} _.

(** A class without base classes. *)
Definition Class {ty : Type} (members : list (member_decl ty)) (friends : list string)
  : class_def ty :=
  ClassDef [] members friends.

#[local] Set Warnings "-register-all".

(** A class type is given by its name together with what is known of it
    at the point where it is used: [Some] definition when it is complete
    there, [None] when it has only been declared. *)
Inductive cpp_type :=
| TVoid | TBool | TChar | TInt | TLong | TDouble
| TPtr (t : cpp_type)
| TLRef (t : cpp_type)
| TFun (ret : cpp_type) (params : list cpp_type)
| TMemPtr (cls : string) (t : cpp_type)
| TEnum (name : string)
| TClass (name : string) (def : option (class_def cpp_type)).

Definition decl := member_decl cpp_type.

Definition is_reference (t : cpp_type) : bool :=
  match t with TLRef _ => true | _ => false end.

Definition remove_reference (t : cpp_type) : cpp_type :=
  match t with TLRef u => u | _ => t end.

(** The types for which unary [&] can be overloaded. *)
Definition is_class_or_enum (t : cpp_type) : bool :=
  match t with TClass _ _ | TEnum _ => true | _ => false end.

(** The spelling of a type, which is its identity: two class types are the
    same type exactly when they have the same name. *)
Fixpoint type_id (t : cpp_type) : string :=
  match t with
  | TVoid => "void"
  | TBool => "bool"
  | TChar => "char"
  | TInt => "int"
  | TLong => "long"
  | TDouble => "double"
  | TPtr u => type_id u ++ "*"
  | TLRef u => type_id u ++ "&"
  | TFun r ps => type_id r ++ "(" ++ String.concat "," (List.map type_id ps) ++ ")"
  | TMemPtr c u => type_id u ++ " " ++ c ++ "::*"
  | TEnum n => n
  | TClass n _ => n
  end.

(** ** Qualified lookup of a member name, [T::M] *)

Definition is_type_name (d : decl) : bool :=
  match m_entity d with MemberType _ => true | _ => false end.

Definition named (M : string) (ds : list decl) : list decl :=
  filter (λ d, m_name d = M) ds.

(** The declarations a use of [M] as an expression refers to: those named
    [M] in the class; a class or enumeration name is hidden by a data
    member, function or enumerator of the same name.  (A typedef cannot
    share its name with another member, so the rule never applies to one
    in a class that compiles.) *)
Definition lookup (ds : list decl) (M : string) : list decl :=
  match filter (λ d, is_type_name d = false) (named M ds) with
  | [] => named M ds
  | nontypes => nontypes
  end.

(** The declarations a use of [M] after [typename] refers to: the types
    among those named [M] in the class. *)
Definition type_lookup (ds : list decl) (M : string) : list decl :=
  filter (λ d, is_type_name d = true) (named M ds).

(** ** Access checking

    The member is named inside a member of the class [ctx], which is
    neither the class it inspects nor derived from it.  A member declared
    in the inspected class itself is accessible when it is public, and
    otherwise only when the inspected class declares [ctx] a friend. *)
Definition accessible (ctx : string) (c : class_def cpp_type) (d : decl) : bool :=
  match m_access d with
  | Public => true
  | Protected | Private => bool_decide (ctx ∈ friends c)
  end.

(** ** Member lookup through base classes

    What lookup of a name in the scope of a class finds: the class that
    declares the name, the declarations found there, and what access
    checking needs to know: whether [ctx] is a friend of the declaring
    class, and whether it is a friend of a class on the way from the
    inspected class to the declaring one (both included). *)
Record finding := Finding {
  f_class : string;
  f_decls : list decl;
  f_friend : bool;
  f_path_friend : bool
}.

Inductive lookup_result :=
| NotFound
| Ambiguous
| FoundIn (f : finding).

(** The members that are the same entity in every base class subobject. *)
Definition shared_member (d : decl) : bool :=
  match m_entity d with
  | StaticField _ | StaticMethod _ | MemberType _ | Enumerator _ => true
  | _ => false
  end.

(** Merging what two base classes give.  A name found in both is
    ambiguous, unless both found the same shared members of one class;
    the access is then that of the path that gives most. *)
Definition merge (r1 r2 : lookup_result) : lookup_result :=
  match r1, r2 with
  | NotFound, r | r, NotFound => r
  | Ambiguous, _ | _, Ambiguous => Ambiguous
  | FoundIn f1, FoundIn f2 =>
      if bool_decide (f_class f1 = f_class f2) && forallb shared_member (f_decls f1)
      then FoundIn (Finding (f_class f1) (f_decls f1) (f_friend f1)
                            (f_path_friend f1 || f_path_friend f2))
      else Ambiguous
  end.

(** A class passed on the way adds its friendship to the path. *)
Definition through (fr : bool) (r : lookup_result) : lookup_result :=
  match r with
  | FoundIn f =>
      FoundIn (Finding (f_class f) (f_decls f) (f_friend f) (f_path_friend f || fr))
  | _ => r
  end.

(** Lookup of [M] in the scope of [T].  Declarations of [M] in the class
    itself hide those of its base classes; without any, the base classes
    are searched and their results merged.  [select] picks, among the
    declarations named [M] in one class, those the use refers to
    ([lookup] for an expression, [type_lookup] after [typename]). *)
Fixpoint member_lookup (select : list decl → string → list decl) (ctx : string)
    (M : string) (T : cpp_type) {struct T} : lookup_result :=
  match T with
  | TClass cls (Some (ClassDef bs ms fs)) =>
      let fr := bool_decide (ctx ∈ fs) in
      match named M ms with
      | [] => through fr
                (fold_right merge NotFound
                   (List.map (member_lookup select ctx M) bs))
      | _ => FoundIn (Finding cls (select ms M) fr fr)
      end
  | _ => NotFound
  end.

(** Access to what was found: a public member is accessible; a private
    one to the friends of the class that declares it; a protected one to
    the friends of any class from the inspected to the declaring one. *)
Definition reachable (f : finding) (d : decl) : bool :=
  match m_access d with
  | Public => true
  | Protected => f_path_friend f
  | Private => f_friend f
  end.

(** ** The expression [&T::M]

    Its type when it is well-formed, [None] when it is not (inside the
    declaration of a function template this is a substitution failure).
    - [T] must be a complete class type;
    - [M] must name exactly one entity, found in [T] or in one of its
      base classes without ambiguity (the address of an overload set or
      of a function template cannot be taken without a target type), and
      this entity must be accessible;
    - a non-static member gives a pointer to member of the class that
      declares it, unless it is a bit-field or has reference type;
    - a static member gives an ordinary pointer;
    - a type name or an enumerator is not an lvalue;
    - a deleted function cannot be referred to.
    Unary [&] is the built-in operator throughout: a static data member
    whose class or enumeration type overloads it is not represented. *)
Definition address_of_entity (cls : string) (e : entity cpp_type) : option cpp_type :=
  match e with
  | Field t => if is_reference t then None else Some (TMemPtr cls t)
  | BitField _ _ => None
  | StaticField t => Some (TPtr (remove_reference t))
  | Method sig => Some (TMemPtr cls sig)
  | StaticMethod sig => Some (TPtr sig)
  | MethodTemplate => None
  | MemberType _ => None
  | Enumerator _ => None
  | DeletedMethod _ => None
  end.

Definition address_of_member (ctx : string) (T : cpp_type) (M : string) : option cpp_type :=
  match member_lookup lookup ctx M T with
  | FoundIn f =>
      match f_decls f with
      | [d] => if reachable f d then address_of_entity (f_class f) (m_entity d) else None
      | _ => None
      end
  | _ => None
  end.

(** ** Overload resolution for a call with the single argument [0] *)

Inductive conversion_rank := ExactMatch | Promotion | Conversion | EllipsisConversion.

Definition rank_index (r : conversion_rank) : nat :=
  match r with
  | ExactMatch => 0
  | Promotion => 1
  | Conversion => 2
  | EllipsisConversion => 3
  end.

(** A candidate function: its parameter ([None] for the ellipsis [...])
    and its return type. *)
Record candidate := Candidate {
  cand_param : option cpp_type;
  cand_ret : cpp_type
}.

(** The implicit conversion sequence that takes the literal [0] (an [int]
    prvalue and a null pointer constant) to a parameter; [None] when there
    is none and the candidate is not viable.  Integral, floating-integral,
    boolean, null pointer and null member pointer conversions all have
    conversion rank; a parameter of function type is adjusted to a pointer;
    a reference to non-const cannot bind to a literal; conversions to
    enumerations do not exist and user-defined ones are not considered. *)
Definition conversion_of_zero (p : option cpp_type) : option conversion_rank :=
  match p with
  | None => Some EllipsisConversion
  | Some TInt => Some ExactMatch
  | Some TBool | Some TChar | Some TLong | Some TDouble => Some Conversion
  | Some (TPtr _) | Some (TMemPtr _ _) | Some (TFun _ _) => Some Conversion
  | Some TVoid | Some (TLRef _) | Some (TEnum _) | Some (TClass _ _) => None
  end.

Definition viable (cs : list candidate) : list (conversion_rank * candidate) :=
  omap (λ c, r ← conversion_of_zero (cand_param c); Some (r, c)) cs.

Definition at_least_as_good (r : conversion_rank) (rc : conversion_rank * candidate) : bool :=
  Nat.leb (rank_index r) (rank_index rc.1).

(** The best viable function: the one whose conversion is at least as
    good as every other and that is alone in being so; [None] when no
    candidate is viable or the call is ambiguous. *)
Definition overload_resolution (cs : list candidate) : option candidate :=
  let vs := viable cs in
  match List.filter (λ rc, forallb (at_least_as_good rc.1) vs) vs with
  | [rc] => Some rc.2
  | _ => None
  end.

(** ** The class template generated by [DEFINE_has_member(member_name)] *)

Definition probe_class (member_name : string) : string :=
  "temp_has_member_" ++ member_name.

Definition yes_type : cpp_type := TChar.
Definition no_type : cpp_type := TLong.

(** The overload set [test<U>] after substituting [U := T]:
<<
    template <typename U> static yes_type test(decltype(&U::member_name));
    template <typename U> static no_type  test(...);
>>
    The first declaration drops out when [&T::member_name] is not
    well-formed; the second is always there. *)
Definition test (member_name : string) (T : cpp_type) : list candidate :=
  match address_of_member (probe_class member_name) T member_name with
  | Some P => [Candidate (Some P) yes_type]
  | None => []
  end ++ [Candidate None no_type].

Section DataModel.

(** The size of [long] is fixed by the platform and not by the source. *)
Variable sizeof_long : Z.

(** [sizeof(char)] is 1 by definition.  The probe applies [sizeof] to
    [yes_type] and [no_type] only; no other size is defined here. *)
Definition sizeof (t : cpp_type) : option Z :=
  match t with
  | TChar => Some 1%Z
  | TLong => Some sizeof_long
  | _ => None
  end.

(** [static constexpr bool value = sizeof(test<T>(0)) == sizeof(yes_type);]
    [None] stands for an initializer that does not compile. *)
Definition value (member_name : string) (T : cpp_type) : option bool :=
  f ← overload_resolution (test member_name T);
  a ← sizeof (cand_ret f);
  b ← sizeof yes_type;
  Some (a =? b)%Z.

(** [#define temp_has_member(class_, member_name)
       temp_has_member_##member_name<class_>::value] *)
Definition temp_has_member (class_ : cpp_type) (member_name : string) : option bool :=
  value member_name class_.

End DataModel.

(** ** The translation unit while it is compiled

    What the compiler keeps at namespace scope: the class templates
    defined so far and, for every specialization of a probe that has been
    instantiated, the value of its static member.  A specialization is
    instantiated at most once in a translation unit; later uses name the
    same constant. *)
Record translation_unit := TU {
  templates : gset string;
  specializations : gmap (string * string) bool
}.

Definition empty_unit : translation_unit := TU ∅ ∅.

Inductive diagnostic :=
| Redefinition (name : string)
| Undeclared (name : string)
| NoTypeNamed (member : string) (T : string)
| InvalidInitializer (name : string).

(** Compilation steps either stop with a diagnostic or give a result and
    the translation unit as it is afterwards. *)
Definition build (A : Type) : Type :=
  translation_unit → diagnostic + (A * translation_unit).

Definition fail {A} (d : diagnostic) : build A := λ _, inl d.

#[export] Instance build_ret : MRet build := λ A a σ, inr (a, σ).

#[export] Instance build_bind : MBind build := λ A B' k m σ,
  match m σ with
  | inl d => inl d
  | inr (a, σ') => k a σ'
  end.

Definition define_class_template (name : string) : build unit :=
  λ σ, if decide (name ∈ templates σ)
       then inl (Redefinition name)
       else inr ((), TU ({[name]} ∪ templates σ) (specializations σ)).

(** [DEFINE_has_member(member_name);] at namespace scope defines the
    class template [temp_has_member_##member_name]. *)
Definition DEFINE_has_member (member_name : string) : build unit :=
  define_class_template (probe_class member_name).

(** Declarations and uses that can follow one another at namespace scope. *)
Inductive toplevel :=
| Define (member_name : string)
| DefineTemplate (name : string)
| Use (class_ : cpp_type) (member_name : string).

Section Compilation.

Variable sizeof_long : Z.

(** A use of [temp_has_member(class_, member_name)]: the template must
    have been defined; the specialization for [class_] is instantiated
    the first time it is named, with [class_] as it is known there. *)
Definition use_temp_has_member (class_ : cpp_type) (member_name : string) : build bool :=
  λ σ, let cls := probe_class member_name in
       if decide (cls ∈ templates σ) then
         match specializations σ !! (cls, type_id class_) with
         | Some v => inr (v, σ)
         | None =>
             match temp_has_member sizeof_long class_ member_name with
             | Some v =>
                 inr (v, TU (templates σ)
                            (<[(cls, type_id class_) := v]> (specializations σ)))
             | None => inl (InvalidInitializer cls)
             end
         end
       else inl (Undeclared cls).

Definition toplevel_step (d : toplevel) : build unit :=
  match d with
  | Define M => DEFINE_has_member M
  | DefineTemplate n => define_class_template n
  | Use T M => use_temp_has_member T M ;; mret ()
  end.

Fixpoint toplevel_steps (ds : list toplevel) : build unit :=
  match ds with
  | [] => mret ()
  | d :: ds' => toplevel_step d ;; toplevel_steps ds'
  end.

End Compilation.

Arguments fail {A} d _.

(** ** Output streams *)

Definition newline : string := String "010"%char EmptyString.

(** [std::cout] as the program uses it: the characters written so far
    and the [boolalpha] flag, which is clear when the program starts.  The
    rest of the stream's state is taken to be as it is at program start
    and throughout the program, which never changes it: the stream is
    good, no width is pending, the other format flags and the locale are
    the initial ones. *)
Record ostream := OStream {
  written : string;
  boolalpha : bool
}.

Definition cout : ostream := OStream "" false.

Definition put_string (s : string) (os : ostream) : ostream :=
  OStream (written os ++ s) (boolalpha os).

Definition put_bool (b : bool) (os : ostream) : ostream :=
  put_string (if boolalpha os
              then (if b then "true" else "false")
              else (if b then "1" else "0")) os.

Definition endl (os : ostream) : ostream := put_string newline os.

(** ** The demonstration program *)

Module Demo.

Definition plain (fields : list (string * cpp_type)) : class_def cpp_type :=
  Class (List.map (λ f, Member f.1 Public (Field f.2)) fields) [].

Definition CubeSphereObject : cpp_type :=
  TClass "CubeSphereObject" (Some (plain
    [("x", TDouble); ("y", TDouble); ("z", TDouble); ("width", TDouble);
     ("length", TDouble); ("height", TDouble); ("heading", TDouble)])).

Definition B : cpp_type := TClass "B" (Some (plain [("heading", TBool)])).

Definition C : cpp_type := TClass "C" (Some (plain [("headings", TBool)])).

(** [std::vector<X>] for an element type [X] it can be instantiated with
    (see [vector_element]), as far as its member names go: the member
    types and some of the member functions the standard library gives it
    ([resize] is overloaded; [size_type] is rendered as [long]). *)
Definition std_vector (X : cpp_type) : cpp_type :=
  TClass ("std::vector<" ++ type_id X ++ ">") (Some (Class
    [ Member "value_type" Public (MemberType X);
      Member "reference" Public (MemberType (TLRef X));
      Member "pointer" Public (MemberType (TPtr X));
      Member "size_type" Public (MemberType TLong);
      Member "size" Public (Method (TFun TLong []));
      Member "empty" Public (Method (TFun TBool []));
      Member "clear" Public (Method (TFun TVoid []));
      Member "resize" Public (Method (TFun TVoid [TLong]));
      Member "resize" Public (Method (TFun TVoid [TLong; TLRef X])) ] [])).

Section Program.

Variable sizeof_long : Z.

(** [typename T::name], named inside the class template [ctx]: the one
    accessible type of that name in [T] or its base classes. *)
Definition typename_member (ctx : string) (T : cpp_type) (name : string)
  : build cpp_type :=
  match member_lookup type_lookup ctx name T with
  | FoundIn f =>
      match f_decls f with
      | [d] =>
          match m_entity d with
          | MemberType t =>
              if reachable f d then mret t else fail (NoTypeNamed name (type_id T))
          | _ => fail (NoTypeNamed name (type_id T))
          end
      | _ => fail (NoTypeNamed name (type_id T))
      end
  | _ => fail (NoTypeNamed name (type_id T))
  end.

(** The constructor of [test<T>], compiled: the probe's value is a
    constant of the generated code, which only writes to [cout].
<<
  cout << "has_member(T, heading) "
       << temp_has_member(typename T:: value_type, heading) << endl;
  cout << endl;
>> *)
Definition test (T : cpp_type) : build (ostream → ostream) :=
  elem ← typename_member "test" T "value_type" ;
  v ← use_temp_has_member sizeof_long elem "heading" ;
  mret (λ os,
    let os := endl (put_bool v (put_string "has_member(T, heading) " os)) in
    endl os).

(** [~test(){}] *)
Definition test_destructor (os : ostream) : ostream := os.

(** [main]: three objects are constructed in order, [0] is returned and
    the objects are destroyed in reverse order. *)
Definition main : build (ostream → ostream * Z) :=
  a ← test (std_vector CubeSphereObject) ;
  b ← test (std_vector B) ;
  c ← test (std_vector C) ;
  mret (λ os,
    let os := a os in
    let os := b os in
    let os := c os in
    let status := 0%Z in
    let os := test_destructor os in
    let os := test_destructor os in
    let os := test_destructor os in
    (os, status)).

(** The source file from top to bottom. *)
Definition source_file : build (ostream → ostream * Z) :=
  DEFINE_has_member "heading" ;;
  define_class_template "test" ;;
  main.

(** Building the program and running it once with the given command
    line: what it writes to standard output and its exit status. *)
Definition run (argv : list string) : diagnostic + (string * Z) :=
  match source_file empty_unit with
  | inl d => inl d
  | inr (program, _) =>
      let '(os, status) := program cout in
      inr (written os, status)
  end.

End Program.

End Demo.

(** ** Predicates on the inspected type, used to state the properties *)

Definition is_complete_class (T : cpp_type) : bool :=
  match T with TClass _ (Some _) => true | _ => false end.

(** [T] declares at least one member named [M]. *)
Definition declares (T : cpp_type) (M : string) : bool :=
  match T with
  | TClass _ (Some c) => bool_decide (named M (members c) ≠ [])
  | _ => false
  end.

(** [T] declares a member named [M] that the class [ctx] may name. *)
Definition declares_accessible (ctx : string) (T : cpp_type) (M : string) : bool :=
  match T with
  | TClass _ (Some c) => existsb (accessible ctx c) (named M (members c))
  | _ => false
  end.

(** [T] or one of its base classes, direct or indirect, declares a
    member named [M]. *)
Fixpoint has_member_named (T : cpp_type) (M : string) {struct T} : bool :=
  match T with
  | TClass _ (Some (ClassDef bs ms _)) =>
      bool_decide (named M ms ≠ []) || existsb (λ B, has_member_named B M) bs
  | _ => false
  end.

(** The element types [std::vector] can be instantiated with: object
    types, complete if they are classes. *)
Definition vector_element (X : cpp_type) : bool :=
  match X with
  | TVoid | TLRef _ | TFun _ _ | TClass _ None => false
  | _ => true
  end.

(** The entities whose address [&T::M] can be formed. *)
Definition addressable (e : entity cpp_type) : bool :=
  match e with
  | Field t => negb (is_reference t)
  | StaticField _ | Method _ | StaticMethod _ => true
  | BitField _ _ | MethodTemplate | MemberType _ | Enumerator _
  | DeletedMethod _ => false
  end.

(** Among them, those for which [&] is certain to be the built-in
    operator: every non-static data member and every member function (the
    result is a pointer to member or to function), and the static data
    members whose type is not a class or an enumeration, which alone can
    overload unary [&]. *)
Definition plainly_addressable (e : entity cpp_type) : bool :=
  match e with
  | StaticField t => negb (is_class_or_enum (remove_reference t))
  | _ => addressable e
  end.

Definition is_function (d : decl) : bool :=
  match m_entity d with
  | Method _ | StaticMethod _ | MethodTemplate | DeletedMethod _ => true
  | _ => false
  end.

(** ** Sample types and translation units *)

(** A class whose member [heading] is a nested type. *)
Definition Route : cpp_type :=
  TClass "Route" (Some (Class [Member "heading" Public (MemberType TDouble)] [])).

(** A class whose only member is the nested type [headings]. *)
Definition Legs : cpp_type :=
  TClass "Legs" (Some (Class [Member "headings" Public (MemberType TBool)] [])).

(** [struct Derived : B {};] declares nothing and inherits [heading]. *)
Definition Derived : cpp_type :=
  TClass "Derived" (Some (ClassDef [Demo.B] [] [])).

(** [struct Heir : C { double other; };] inherits [headings] only. *)
Definition Heir : cpp_type :=
  TClass "Heir" (Some (ClassDef [Demo.C] [Member "other" Public (Field TDouble)] [])).

(** [struct Shadowed { struct heading {}; double heading; };]: the data
    member hides the class of the same name. *)
Definition Shadowed : cpp_type :=
  TClass "Shadowed" (Some (Class
    [ Member "heading" Public (MemberType (TClass "Shadowed::heading" (Some (Class [] []))));
      Member "heading" Public (Field TDouble) ] [])).

(** [struct Withdrawn { void heading() = delete; };] *)
Definition Withdrawn : cpp_type :=
  TClass "Withdrawn" (Some (Class
    [Member "heading" Public (DeletedMethod (TFun TVoid []))] [])).

(** A class that keeps [heading] private. *)
Definition Sealed : cpp_type :=
  TClass "Sealed" (Some (Class [Member "heading" Private (Field TDouble)] [])).

(** A class with an overloaded member function, a nested type, a member
    of reference type and a bit-field. *)
Definition Gauge : cpp_type :=
  TClass "Gauge" (Some (Class
    [ Member "set" Public (Method (TFun TVoid [TInt]));
      Member "set" Public (Method (TFun TVoid [TDouble]));
      Member "unit" Public (MemberType TInt);
      Member "source" Public (Field (TLRef TDouble));
      Member "flag" Public (BitField TInt 1) ] [])).

(** A class first used while incomplete and completed afterwards. *)
Definition Waypoint_declared : cpp_type := TClass "Waypoint" None.

Definition Waypoint : cpp_type :=
  TClass "Waypoint" (Some (Class [Member "heading" Public (Field TDouble)] [])).

(** The unit after [DEFINE_has_member(heading);] alone, and after a use
    of the probe and the definition of another template have followed. *)
Definition unit_defined : translation_unit :=
  TU {[probe_class "heading"]} ∅.

Definition unit_used : translation_unit :=
  TU {["test"; probe_class "heading"]}
     {[(probe_class "heading", "B") := true]}.

(** The unit after the probe has been used on [Waypoint] while it was
    incomplete, and after the template [test] has been defined as well. *)
Definition unit_probed : translation_unit :=
  TU {[probe_class "heading"]} {[(probe_class "heading", "Waypoint") := false]}.

Definition unit_completed : translation_unit :=
  TU {["test"; probe_class "heading"]}
     {[(probe_class "heading", "Waypoint") := false]}.

(** ** Relations and abbreviations used in the statements *)

(** What has been defined and instantiated stays so. *)
Definition extends (σ σ' : translation_unit) : Prop :=
  (templates σ ⊆ templates σ') ∧
  (∀ k v, specializations σ !! k = Some v → specializations σ' !! k = Some v).

(** One block of output: the label, the result, the end of the line and
    an empty line. *)
Definition report (result : string) : string :=
  "has_member(T, heading) " ++ result ++ newline ++ newline.

Definition numeric (b : bool) : string := if b then "1" else "0".

(** ** The generated class as a type

    The class that [DEFINE_has_member(member_name)] generates, instantiated
    for [T], seen from outside: what precedes [public:] in a [class] is
    private.
<<
    typedef char yes_type;
    typedef long no_type;
    template <typename U> static yes_type test(decltype(&U::member_name));
    template <typename U> static no_type  test(...);
  public:
    static constexpr bool value = ...;
>> *)
Definition temp_has_member_class (member_name : string) (T : cpp_type) : cpp_type :=
  TClass (probe_class member_name ++ "<" ++ type_id T ++ ">") (Some (Class
    [ Member "yes_type" Private (MemberType yes_type);
      Member "no_type" Private (MemberType no_type);
      Member "test" Private MethodTemplate;
      Member "test" Private MethodTemplate;
      Member "value" Public (StaticField TBool) ] [])).

(** How [operator<<] renders a [bool] on a stream with the given
    [boolalpha] flag. *)
Definition rendered (alpha : bool) (b : bool) : string :=
  if alpha then (if b then "true" else "false") else (if b then "1" else "0").

(** The uses of the probe for [M] among a list of declarations. *)
Definition uses_of (M : string) (ds : list toplevel) : list cpp_type :=
  omap (λ d, match d with
             | Use T M' => if decide (M' = M) then Some T else None
             | _ => None
             end) ds.

(** A compilation step that goes through. *)
Definition compiles {A} (r : diagnostic + (A * translation_unit)) : Prop :=
  ∃ a σ, r = inr (a, σ).

(** * Properties *)

(** ** Lookup *)

Lemma lookup_absent (ds : list decl) (M : string) :
  named M ds = [] → lookup ds M = [].
Proof. intros H. unfold lookup. rewrite H. reflexivity. Qed.

Lemma lookup_single (ds : list decl) (M : string) (d : decl) :
  named M ds = [d] → lookup ds M = [d].
Proof.
  intros H. unfold lookup. rewrite H.
  rewrite filter_cons, filter_nil. case_decide; reflexivity.
Qed.

Lemma lookup_elem_of (ds : list decl) (M : string) (d : decl) :
  d ∈ lookup ds M → d ∈ named M ds.
Proof.
  unfold lookup.
  destruct (filter _ (named M ds)) as [|x l] eqn:E; [done|].
  rewrite <- E. intros H. apply list_elem_of_filter in H. tauto.
Qed.

(** When every declaration named [M] is a type name, nothing hides them. *)
Lemma lookup_types_only (ds : list decl) (M : string) :
  Forall (λ d, is_type_name d = true) (named M ds) → lookup ds M = named M ds.
Proof.
  intros H. unfold lookup.
  replace (filter (λ d, is_type_name d = false) (named M ds)) with (@nil decl); [done|].
  symmetry. induction H as [|d l Hd _ IH]; [done|].
  rewrite filter_cons. case_decide; [congruence|exact IH].
Qed.

(** Functions are never hidden, so an overload set is found whole. *)
Lemma lookup_functions (ds : list decl) (M : string) :
  Forall (λ d, is_function d = true) (named M ds) → lookup ds M = named M ds.
Proof.
  intros H. unfold lookup.
  replace (filter (λ d, is_type_name d = false) (named M ds)) with (named M ds);
    [by destruct (named M ds)|].
  symmetry. induction H as [|d l Hd _ IH]; [done|].
  rewrite filter_cons. case_decide as Hn; [by rewrite IH|].
  exfalso. apply Hn. unfold is_function, is_type_name in *.
  by destruct (m_entity d).
Qed.

(** ** The expression [&T::M] *)

Lemma address_of_entity_addressable (cls : string) (e : entity cpp_type) :
  is_Some (address_of_entity cls e) ↔ addressable e = true.
Proof.
  destruct e as [t| | | | | | | |]; simpl; try destruct (is_reference t); simpl;
    split; intros H; try done; try (by destruct H); eauto.
Qed.

Lemma plainly_addressable_addressable (e : entity cpp_type) :
  plainly_addressable e = true → addressable e = true.
Proof. by destruct e. Qed.

(** Lookup in a class, one level unfolded. *)
Lemma member_lookup_class (select : list decl → string → list decl) (ctx M cls : string)
    (c : class_def cpp_type) :
  member_lookup select ctx M (TClass cls (Some c)) =
    match named M (members c) with
    | [] => through (bool_decide (ctx ∈ friends c))
              (fold_right merge NotFound
                 (List.map (member_lookup select ctx M) (bases c)))
    | _ => FoundIn (Finding cls (select (members c) M)
                      (bool_decide (ctx ∈ friends c)) (bool_decide (ctx ∈ friends c)))
    end.
Proof. by destruct c. Qed.

(** Declarations in the class itself hide the base classes. *)
Lemma member_lookup_own (select : list decl → string → list decl) (ctx M cls : string)
    (c : class_def cpp_type) :
  named M (members c) ≠ [] →
  member_lookup select ctx M (TClass cls (Some c)) =
    FoundIn (Finding cls (select (members c) M)
               (bool_decide (ctx ∈ friends c)) (bool_decide (ctx ∈ friends c))).
Proof.
  intros H. rewrite member_lookup_class. by destruct (named M (members c)).
Qed.

Lemma reachable_own (ctx cls : string) (c : class_def cpp_type) (ds : list decl) (d : decl) :
  reachable (Finding cls ds (bool_decide (ctx ∈ friends c))
                     (bool_decide (ctx ∈ friends c))) d =
    accessible ctx c d.
Proof. unfold reachable, accessible. by destruct (m_access d). Qed.

Lemma address_of_member_own (ctx cls : string) (c : class_def cpp_type) (M : string) :
  named M (members c) ≠ [] →
  address_of_member ctx (TClass cls (Some c)) M =
    match lookup (members c) M with
    | [d] => if accessible ctx c d then address_of_entity cls (m_entity d) else None
    | _ => None
    end.
Proof.
  intros H. unfold address_of_member. rewrite (member_lookup_own _ _ _ _ _ H).
  simpl. by destruct (lookup (members c) M) as [|d [|]].
Qed.

(** Where neither the class nor any base class declares the name, lookup
    finds nothing. *)
Lemma member_lookup_absent (select : list decl → string → list decl) (ctx M : string) :
  ∀ T, has_member_named T M = false → member_lookup select ctx M T = NotFound.
Proof.
  fix IH 1.
  intros [| | | | | |t|t|r ps|c t|n|cls [[bs ms fs]|]]; try reflexivity.
  simpl. intros [Hown Hbases]%orb_false_iff.
  apply bool_decide_eq_false in Hown.
  destruct (named M ms) as [|d0 l]; [|by destruct Hown].
  assert (fold_right merge NotFound (List.map (member_lookup select ctx M) bs) = NotFound)
    as ->; [|reflexivity].
  revert Hbases. clear Hown.
  induction bs as [|B bs IHbs]; [reflexivity|].
  simpl. intros [HB Hbs]%orb_false_iff.
  by rewrite (IH B HB), (IHbs Hbs).
Qed.

(** The type of [&T::M] is always a pointer or a pointer to member, which
    the null pointer constant [0] converts to. *)
Lemma address_of_member_converts (ctx : string) (T : cpp_type) (M : string) (P : cpp_type) :
  address_of_member ctx T M = Some P →
  conversion_of_zero (Some P) = Some Conversion.
Proof.
  unfold address_of_member.
  destruct (member_lookup lookup ctx M T) as [| |f]; try done.
  destruct (f_decls f) as [|d [|]]; try done.
  destruct (reachable f d); [|done].
  destruct (m_entity d) as [t| | | | | | | |]; simpl; try destruct (is_reference t);
    intros [= <-]; reflexivity.
Qed.

Lemma address_of_member_not_class (ctx : string) (T : cpp_type) (M : string) :
  is_complete_class T = false → address_of_member ctx T M = None.
Proof. by destruct T as [| | | | | | | | | | |cls [c|]]. Qed.

Lemma address_of_member_nowhere (ctx : string) (T : cpp_type) (M : string) :
  has_member_named T M = false → address_of_member ctx T M = None.
Proof.
  intros H. unfold address_of_member. by rewrite (member_lookup_absent _ _ _ _ H).
Qed.

(** ** Overload resolution of [test<T>(0)] *)

Lemma test_resolution (M : string) (T : cpp_type) :
  overload_resolution (test M T) =
    Some (match address_of_member (probe_class M) T M with
          | Some P => Candidate (Some P) yes_type
          | None => Candidate None no_type
          end).
Proof.
  unfold test.
  destruct (address_of_member (probe_class M) T M) as [P|] eqn:E; [|reflexivity].
  apply address_of_member_converts in E.
  destruct P; try discriminate E; reflexivity.
Qed.

(** The value of the probe, on every platform: it is [true] when
    [&T::M] is well-formed, and otherwise tells whether [long] happens to
    have the size of [char]. *)
Lemma value_unfold (sizeof_long : Z) (M : string) (T : cpp_type) :
  value sizeof_long M T =
    Some (match address_of_member (probe_class M) T M with
          | Some _ => true
          | None => (sizeof_long =? 1)%Z
          end).
Proof.
  unfold value. rewrite test_resolution.
  destruct (address_of_member (probe_class M) T M); reflexivity.
Qed.

Lemma value_ill_formed (sizeof_long : Z) (M : string) (T : cpp_type) :
  sizeof_long ≠ 1%Z →
  address_of_member (probe_class M) T M = None →
  value sizeof_long M T = Some false.
Proof.
  intros Hl H. rewrite value_unfold, H.
  f_equal. by apply Z.eqb_neq.
Qed.

Lemma value_well_formed (sizeof_long : Z) (M : string) (T : cpp_type) :
  is_Some (address_of_member (probe_class M) T M) →
  value sizeof_long M T = Some true.
Proof. intros [P H]. by rewrite value_unfold, H. Qed.

Lemma declares_false (cls : string) (c : class_def cpp_type) (M : string) :
  declares (TClass cls (Some c)) M = false → named M (members c) = [].
Proof.
  simpl. intros H. apply bool_decide_eq_false in H.
  destruct (named M (members c)); [done|]. by destruct H.
Qed.

Lemma declares_true (cls : string) (c : class_def cpp_type) (M : string) :
  declares (TClass cls (Some c)) M = true → named M (members c) ≠ [].
Proof. simpl. by intros H%bool_decide_eq_true. Qed.

Lemma address_of_member_inaccessible (ctx : string) (T : cpp_type) (M : string) :
  declares T M = true →
  declares_accessible ctx T M = false → address_of_member ctx T M = None.
Proof.
  destruct T as [| | | | | | | | | | |cls [c|]]; try done.
  intros Hown%declares_true. rewrite (address_of_member_own _ _ _ _ Hown).
  simpl. intros H.
  destruct (lookup (members c) M) as [|d [|]] eqn:E; try done.
  assert (Hd : d ∈ named M (members c)).
  { apply lookup_elem_of. rewrite E. apply list_elem_of_here. }
  destruct (accessible ctx c d) eqn:Ha; [|done].
  assert (existsb (accessible ctx c) (named M (members c)) = true); [|congruence].
  apply existsb_exists. exists d. split; [|done]. by apply list_elem_of_In.
Qed.

Lemma lookup_nonempty (ds : list decl) (M : string) :
  lookup ds M ≠ [] → named M ds ≠ [].
Proof. intros H Hn. by apply H, lookup_absent. Qed.

(** The one entity [M] names in the class itself. *)
Lemma address_of_member_found (ctx cls : string) (c : class_def cpp_type)
    (M : string) (d : decl) :
  lookup (members c) M = [d] →
  address_of_member ctx (TClass cls (Some c)) M =
    if accessible ctx c d then address_of_entity cls (m_entity d) else None.
Proof.
  intros H. rewrite address_of_member_own, H; [done|].
  apply lookup_nonempty. by rewrite H.
Qed.

Lemma address_of_member_single (ctx cls : string) (c : class_def cpp_type)
    (M : string) (d : decl) :
  named M (members c) = [d] →
  address_of_member ctx (TClass cls (Some c)) M =
    if accessible ctx c d then address_of_entity cls (m_entity d) else None.
Proof. intros H. by apply address_of_member_found, lookup_single. Qed.

Lemma address_of_member_several (ctx cls : string) (c : class_def cpp_type) (M : string) :
  (2 ≤ length (lookup (members c) M))%nat →
  address_of_member ctx (TClass cls (Some c)) M = None.
Proof.
  intros H. rewrite address_of_member_own.
  - destruct (lookup (members c) M) as [|d [|]]; simpl in *; try done; lia.
  - apply lookup_nonempty. destruct (lookup (members c) M); simpl in *; [lia|done].
Qed.

Lemma forallb_Forall_eq {A} (f : A → bool) (l : list A) :
  forallb f l = true → Forall (λ x, f x = true) l.
Proof.
  induction l as [|x l IH]; simpl; [constructor|].
  intros [Hx Hl]%andb_true_iff. constructor; auto.
Qed.

(** Access is a matter of the access specifier and of friendship alone. *)
Lemma accessible_public (ctx : string) (c : class_def cpp_type) (d : decl) :
  m_access d = Public → accessible ctx c d = true.
Proof. unfold accessible. by intros ->. Qed.

Lemma accessible_friend (ctx : string) (c : class_def cpp_type) (d : decl) :
  ctx ∈ friends c → accessible ctx c d = true.
Proof.
  intros H. unfold accessible. destruct (m_access d); [done| |]; by apply bool_decide_eq_true.
Qed.

Lemma inaccessible_without_friend (ctx : string) (c : class_def cpp_type) (d : decl) :
  m_access d ≠ Public → ctx ∉ friends c → accessible ctx c d = false.
Proof.
  intros Hp Hf. unfold accessible.
  destruct (m_access d); [done| |]; by apply bool_decide_eq_false.
Qed.

(** ** The probe's value *)

(** C1, as stated, fails: [Route] declares a public member named
    [heading], a nested type, and the probe for [heading] is [false] on it. *)
Lemma nested_type_not_detected :
  declares_accessible (probe_class "heading") Route "heading" = true ∧
  temp_has_member 8 Route "heading" = Some false.
Proof. split; reflexivity. Qed.

(** C1, amended: when the name [M], as an expression, names exactly one
    entity declared in a complete class [T] itself (a class or enumeration
    name hidden by another member of that name does not count), and that
    entity is accessible to the probe (public, or [T] befriends the probe)
    and is a non-static data member that is neither a bit-field nor of
    reference type, a static data member whose type is not a class or an
    enumeration, or a member function that is neither a template nor
    deleted, [temp_has_member(T, M)] is [true], provided [M] is not the
    name of [T] itself (which after [T::] names the constructor).  Base
    classes do not matter: what [T] declares hides what it inherits. *)
Theorem temp_has_member_addressable (sizeof_long : Z) (cls : string)
    (c : class_def cpp_type) (M : string) (d : decl) :
  cls ≠ M →
  lookup (members c) M = [d] →
  accessible (probe_class M) c d = true →
  plainly_addressable (m_entity d) = true →
  temp_has_member sizeof_long (TClass cls (Some c)) M = Some true.
Proof.
  intros _ Hn Ha He. apply value_well_formed.
  rewrite (address_of_member_found _ _ _ _ _ Hn), Ha.
  by apply address_of_entity_addressable, plainly_addressable_addressable.
Qed.

Lemma temp_has_member_addressable_witness :
  temp_has_member 8 Demo.CubeSphereObject "heading" = Some true.
Proof.
  apply (temp_has_member_addressable 8 "CubeSphereObject" _ "heading"
           (Member "heading" Public (Field TDouble))); [discriminate|reflexivity..].
Defined.

(** A data member that hides a class of the same name is detected. *)
Lemma hidden_type_name_detected :
  lookup [ Member "heading" Public (MemberType TInt);
           Member "heading" Public (Field TDouble) ] "heading" =
    [Member "heading" Public (Field TDouble)] ∧
  temp_has_member 8 Shadowed "heading" = Some true.
Proof. split; reflexivity. Qed.

(** A deleted member function is declared, public and alone of its name,
    and is not detected. *)
Lemma deleted_function_not_detected :
  declares_accessible (probe_class "heading") Withdrawn "heading" = true ∧
  temp_has_member 8 Withdrawn "heading" = Some false.
Proof. split; reflexivity. Qed.

(** C2, as stated, fails: [Derived] declares no member at all, yet it
    inherits [heading] from [B], [&Derived::heading] is well-formed and
    the probe for [heading] is [true] on it. *)
Lemma inherited_member_detected :
  declares Derived "heading" = false ∧
  address_of_member (probe_class "heading") Derived "heading" =
    Some (TMemPtr "B" TBool) ∧
  temp_has_member 8 Derived "heading" = Some true.
Proof. repeat split; reflexivity. Qed.

(** C2, amended: for a type [T] such that neither [T] nor any of its
    direct or indirect base classes declares a member named [M] (in
    particular for every type that is not a complete class), the fallback
    overload of [test] is selected and [temp_has_member(T, M)] is [false]. *)
Theorem temp_has_member_absent (sizeof_long : Z) (T : cpp_type) (M : string) :
  sizeof_long ≠ 1%Z →
  has_member_named T M = false →
  overload_resolution (test M T) = Some (Candidate None no_type) ∧
  temp_has_member sizeof_long T M = Some false.
Proof.
  intros Hl H. apply (address_of_member_nowhere (probe_class M)) in H.
  split.
  - by rewrite test_resolution, H.
  - by apply value_ill_formed.
Qed.

Lemma temp_has_member_absent_witness :
  overload_resolution (test "heading" Heir) = Some (Candidate None no_type) ∧
  temp_has_member 8 Heir "heading" = Some false.
Proof.
  apply (temp_has_member_absent 8 Heir "heading"); [lia | reflexivity].
Defined.

(** C3, as stated, fails: [Legs] declares a member named [headings] and
    none named [heading], yet the probe for [headings] is [false] on it. *)
Lemma name_declared_not_detected :
  declares Legs "headings" = true ∧
  declares Legs "heading" = false ∧
  temp_has_member 8 Legs "headings" = Some false.
Proof. repeat split; reflexivity. Qed.

(** C3, amended: the check is name-exact.  For a complete class [T] such
    that neither [T] nor any of its base classes declares a member named
    [M], and in which the name [N] names exactly one entity declared in [T]
    itself, accessible to the probe and being a non-static data member
    that is neither a bit-field nor of reference type, a static data
    member whose type is not a class or an enumeration, or a member
    function that is neither a template nor deleted (of whatever type
    otherwise), [N] not being the name of [T] itself,
    [temp_has_member(T, M)] is [false] and [temp_has_member(T, N)] is
    [true].  With [double heading] the query for
    [heading] is [true], with only [bool headings] it is [false], with
    [bool heading] it is [true]. *)
Theorem temp_has_member_name_exact (sizeof_long : Z) :
  sizeof_long ≠ 1%Z →
  (∀ (cls : string) (c : class_def cpp_type) (M N : string) (d : decl),
      has_member_named (TClass cls (Some c)) M = false →
      cls ≠ N →
      lookup (members c) N = [d] →
      accessible (probe_class N) c d = true →
      plainly_addressable (m_entity d) = true →
      temp_has_member sizeof_long (TClass cls (Some c)) M = Some false ∧
      temp_has_member sizeof_long (TClass cls (Some c)) N = Some true) ∧
  temp_has_member sizeof_long Demo.CubeSphereObject "heading" = Some true ∧
  temp_has_member sizeof_long Demo.C "heading" = Some false ∧
  temp_has_member sizeof_long Demo.B "heading" = Some true.
Proof.
  intros Hl. split; [|split; [|split]].
  - intros cls c M N d HM _ HN Ha He. split.
    + apply value_ill_formed; [done|]. by apply address_of_member_nowhere.
    + apply value_well_formed.
      rewrite (address_of_member_found _ _ _ _ _ HN), Ha.
      by apply address_of_entity_addressable, plainly_addressable_addressable.
  - by apply value_well_formed.
  - by apply value_ill_formed.
  - by apply value_well_formed.
Qed.

Lemma temp_has_member_name_exact_witness :
  temp_has_member 8 Heir "heading" = Some false ∧
  temp_has_member 8 Heir "other" = Some true.
Proof.
  apply (proj1 (temp_has_member_name_exact 8 ltac:(lia)) "Heir" _ "heading" "other"
           (Member "other" Public (Field TDouble))); [reflexivity|discriminate|reflexivity..].
Defined.



Lemma lookup_overloads (ds : list decl) (M : string) :
  forallb is_function (named M ds) = true → lookup ds M = named M ds.
Proof. intros H. by apply lookup_functions, forallb_Forall_eq. Qed.

Lemma lookup_type_names (ds : list decl) (M : string) :
  forallb is_type_name (named M ds) = true → lookup ds M = named M ds.
Proof. intros H. by apply lookup_types_only, forallb_Forall_eq. Qed.

Lemma address_of_member_type_names (ctx cls : string) (c : class_def cpp_type) (M : string) :
  named M (members c) ≠ [] →
  forallb is_type_name (named M (members c)) = true →
  address_of_member ctx (TClass cls (Some c)) M = None.
Proof.
  intros Hown H. rewrite (address_of_member_own _ _ _ _ Hown), (lookup_type_names _ _ H).
  destruct (named M (members c)) as [|d [|]]; try done.
  simpl in H. rewrite andb_true_r in H. unfold is_type_name in H.
  destruct (accessible ctx c d); [|done].
  by destruct (m_entity d).
Qed.



(** C9: when [T] is incomplete, or is not a class at all so that [T::M]
    names nothing, the probe still compiles and its value is [false]. *)
Theorem temp_has_member_incomplete (sizeof_long : Z) (T : cpp_type) (M : string) :
  sizeof_long ≠ 1%Z →
  is_complete_class T = false →
  temp_has_member sizeof_long T M = Some false.
Proof.
  intros Hl H. apply value_ill_formed; [done|].
  by apply address_of_member_not_class.
Qed.

Lemma temp_has_member_incomplete_witness :
  temp_has_member 8 (TClass "Pending" None) "heading" = Some false.
Proof.
  apply (temp_has_member_incomplete 8 (TClass "Pending" None) "heading"); [lia | reflexivity].
Defined.

(** Accessibility gates the result: the same private member is found as
    soon as the class befriends the probe. *)
Lemma temp_has_member_private (sizeof_long : Z) (cls : string)
    (c : class_def cpp_type) (M : string) (d : decl) :
  sizeof_long ≠ 1%Z →
  named M (members c) = [d] →
  m_access d ≠ Public →
  probe_class M ∉ friends c →
  temp_has_member sizeof_long (TClass cls (Some c)) M = Some false.
Proof.
  intros Hl Hn Hp Hf. apply value_ill_formed; [done|].
  rewrite (address_of_member_single _ _ _ _ _ Hn).
  by rewrite (inaccessible_without_friend _ _ _ Hp Hf).
Qed.

Lemma temp_has_member_befriended (sizeof_long : Z) (cls : string)
    (c : class_def cpp_type) (M : string) (d : decl) :
  named M (members c) = [d] →
  probe_class M ∈ friends c →
  addressable (m_entity d) = true →
  temp_has_member sizeof_long (TClass cls (Some c)) M = Some true.
Proof.
  intros Hn Hf He. apply value_well_formed.
  rewrite (address_of_member_single _ _ _ _ _ Hn).
  rewrite (accessible_friend _ _ _ Hf).
  by apply address_of_entity_addressable.
Qed.

(** Why the size of [long] matters: were it 1, as the size of [char] is,
    the two result types could not be told apart and the probe would be
    [true] for every type and name. *)
Lemma temp_has_member_long_of_size_one (T : cpp_type) (M : string) :
  temp_has_member 1 T M = Some true.
Proof.
  unfold temp_has_member. rewrite value_unfold.
  by destruct (address_of_member (probe_class M) T M).
Qed.

(** ** The translation unit *)

Lemma extends_refl (σ : translation_unit) : extends σ σ.
Proof. split; [set_solver | auto]. Qed.

Lemma extends_trans (σ1 σ2 σ3 : translation_unit) :
  extends σ1 σ2 → extends σ2 σ3 → extends σ1 σ3.
Proof. intros [H1 H2] [H3 H4]. split; [set_solver | auto]. Qed.

Lemma define_class_template_inv (name : string) (σ σ' : translation_unit) (u : unit) :
  define_class_template name σ = inr (u, σ') →
  (name ∉ templates σ) ∧
  σ' = TU ({[name]} ∪ templates σ) (specializations σ).
Proof.
  unfold define_class_template. case_decide; [done|].
  intros [= _ <-]. done.
Qed.

Lemma define_class_template_extends (name : string) (σ σ' : translation_unit) (u : unit) :
  define_class_template name σ = inr (u, σ') → extends σ σ'.
Proof.
  intros [_ ->]%define_class_template_inv. split; simpl; [set_solver | auto].
Qed.

Lemma define_class_template_again (name : string) (σ : translation_unit) :
  name ∈ templates σ → define_class_template name σ = inl (Redefinition name).
Proof. intros H. unfold define_class_template. by case_decide. Qed.

Section CompilationFacts.

Variable sizeof_long : Z.

Lemma use_temp_has_member_inv (T : cpp_type) (M : string)
    (σ σ' : translation_unit) (v : bool) :
  use_temp_has_member sizeof_long T M σ = inr (v, σ') →
  probe_class M ∈ templates σ' ∧
  specializations σ' !! (probe_class M, type_id T) = Some v ∧
  extends σ σ'.
Proof.
  unfold use_temp_has_member. case_decide as Hin; [|done].
  destruct (specializations σ !! (probe_class M, type_id T)) as [w|] eqn:E.
  - intros [= <- <-]. auto using extends_refl.
  - destruct (temp_has_member sizeof_long T M) as [w|]; [|done].
    intros [= <- <-]. simpl. split; [done|]. split.
    + apply lookup_insert_eq.
    + split; simpl; [done|]. intros k w' Hk.
      rewrite lookup_insert_ne; [done|]. congruence.
Qed.

(** Naming a specialization that exists already yields its value and
    leaves the translation unit as it is. *)
Lemma use_temp_has_member_instantiated (T : cpp_type) (M : string)
    (σ : translation_unit) (v : bool) :
  probe_class M ∈ templates σ →
  specializations σ !! (probe_class M, type_id T) = Some v →
  use_temp_has_member sizeof_long T M σ = inr (v, σ).
Proof.
  intros Hin Hs. unfold use_temp_has_member.
  case_decide; [|done]. by rewrite Hs.
Qed.

(** The first use instantiates the specialization with the type as it
    is known at that point. *)
Lemma use_temp_has_member_first (T : cpp_type) (M : string) (σ : translation_unit) :
  probe_class M ∈ templates σ →
  specializations σ !! (probe_class M, type_id T) = None →
  ∃ v, temp_has_member sizeof_long T M = Some v ∧
       use_temp_has_member sizeof_long T M σ =
         inr (v, TU (templates σ)
                    (<[(probe_class M, type_id T) := v]> (specializations σ))).
Proof.
  intros Hin Hs. unfold use_temp_has_member, temp_has_member.
  case_decide; [|done]. rewrite Hs, value_unfold. eauto.
Qed.

Lemma use_before_definition (T : cpp_type) (M : string) (σ : translation_unit) :
  probe_class M ∉ templates σ →
  use_temp_has_member sizeof_long T M σ = inl (Undeclared (probe_class M)).
Proof. intros H. unfold use_temp_has_member. by case_decide. Qed.

Lemma toplevel_step_extends (d : toplevel) (σ σ' : translation_unit) (u : unit) :
  toplevel_step sizeof_long d σ = inr (u, σ') → extends σ σ'.
Proof.
  destruct d as [M|n|T M]; simpl.
  - apply define_class_template_extends.
  - apply define_class_template_extends.
  - unfold mbind, build_bind.
    destruct (use_temp_has_member sizeof_long T M σ) as [e|[v σ1]] eqn:E; [done|].
    intros [= _ <-]. by apply use_temp_has_member_inv in E as (_ & _ & ?).
Qed.

Lemma toplevel_steps_extends (ds : list toplevel) (σ σ' : translation_unit) (u : unit) :
  toplevel_steps sizeof_long ds σ = inr (u, σ') → extends σ σ'.
Proof.
  revert σ. induction ds as [|d ds IH]; intros σ; simpl.
  - intros [= _ <-]. apply extends_refl.
  - unfold mbind, build_bind.
    destruct (toplevel_step sizeof_long d σ) as [e|[w σ1]] eqn:E; [done|].
    intros H. eapply extends_trans.
    + eapply toplevel_step_extends, E.
    + by apply IH.
Qed.

End CompilationFacts.

(** C8: once [DEFINE_has_member(M)] has been accepted, a second
    [DEFINE_has_member(M)] in the same scope, directly after it or after
    any further declarations, is rejected as a redefinition of the
    generated class [temp_has_member_M]. *)
Theorem DEFINE_has_member_twice (sizeof_long : Z) (M : string)
    (σ σ1 σ2 : translation_unit) (ds : list toplevel) :
  DEFINE_has_member M σ = inr ((), σ1) →
  toplevel_steps sizeof_long ds σ1 = inr ((), σ2) →
  DEFINE_has_member M σ1 = inl (Redefinition (probe_class M)) ∧
  DEFINE_has_member M σ2 = inl (Redefinition (probe_class M)).
Proof.
  intros H1 H2. unfold DEFINE_has_member in *.
  apply define_class_template_inv in H1 as [_ ->].
  apply toplevel_steps_extends in H2 as [Ht _].
  split; apply define_class_template_again; set_solver.
Qed.

Lemma DEFINE_has_member_twice_witness :
  DEFINE_has_member "heading" unit_defined =
    inl (Redefinition (probe_class "heading")) ∧
  DEFINE_has_member "heading" unit_used =
    inl (Redefinition (probe_class "heading")).
Proof.
  apply (DEFINE_has_member_twice 8 "heading" empty_unit unit_defined unit_used
           [Use Demo.B "heading"; DefineTemplate "test"]);
    vm_compute; reflexivity.
Defined.

(** C10: the probe's result for a pair (type, member name) is one
    constant of the translation unit.  Once a use of
    [temp_has_member(class_, member_name)] has yielded [v], every later use
    for the same type and name yields the same [v], whatever has been
    declared in between and however the type is known by then, and changes
    nothing.  At run time the constant is an operand like any literal: the
    compiled constructor of [test<T>] only writes to the stream, and what
    it writes is fixed by a value that does not depend on the stream. *)
Theorem temp_has_member_constant (sizeof_long : Z) (class_ : cpp_type)
    (member_name : string) (σ σ1 : translation_unit) (v : bool) :
  use_temp_has_member sizeof_long class_ member_name σ = inr (v, σ1) →
  (∀ (ds : list toplevel) (σ2 : translation_unit) (class_' : cpp_type),
      toplevel_steps sizeof_long ds σ1 = inr ((), σ2) →
      type_id class_' = type_id class_ →
      use_temp_has_member sizeof_long class_' member_name σ2 = inr (v, σ2)) ∧
  (∀ (T : cpp_type) (τ τ' : translation_unit) (body : ostream → ostream),
      Demo.test sizeof_long T τ = inr (body, τ') →
      ∃ w : bool, ∀ os : ostream,
        body os = endl (endl (put_bool w (put_string "has_member(T, heading) " os)))).
Proof.
  intros H. apply use_temp_has_member_inv in H as (Hin & Hs & _). split.
  - intros ds σ2 class_' Hsteps Hid.
    apply toplevel_steps_extends in Hsteps as [Ht Hk].
    apply use_temp_has_member_instantiated; [set_solver|].
    rewrite Hid. by apply Hk.
  - intros T τ τ' body. unfold Demo.test, mbind, build_bind, mret, build_ret.
    destruct (Demo.typename_member "test" T "value_type" τ) as [e|[elem τ1]]; [done|].
    destruct (use_temp_has_member sizeof_long elem "heading" τ1) as [e|[w τ2]]; [done|].
    intros [= <- _]. by exists w.
Qed.

Lemma temp_has_member_constant_witness :
  use_temp_has_member 8 Waypoint "heading" unit_completed = inr (false, unit_completed).
Proof.
  assert (H : use_temp_has_member 8 Waypoint_declared "heading" unit_defined =
              inr (false, unit_probed)) by (vm_compute; reflexivity).
  apply (proj1 (temp_has_member_constant 8 Waypoint_declared "heading"
                  unit_defined unit_probed false H)
           [DefineTemplate "test"]); vm_compute; reflexivity.
Defined.

(** ** The demonstration program *)

Lemma std_vector_value_type (X : cpp_type) (σ : translation_unit) :
  Demo.typename_member "test" (Demo.std_vector X) "value_type" σ = inr (X, σ).
Proof. reflexivity. Qed.

Lemma std_vector_no_heading (X : cpp_type) :
  address_of_member (probe_class "heading") (Demo.std_vector X) "heading" = None.
Proof. reflexivity. Qed.

(** The program on any platform: the third result is the only one that
    depends on the size of [long]. *)
Lemma run_unfold (sizeof_long : Z) (argv : list string) :
  Demo.run sizeof_long argv =
    inr (report "1" ++ report "1" ++ report (numeric (sizeof_long =? 1)%Z), 0%Z).
Proof.
  destruct sizeof_long as [|[p|p|]|p]; reflexivity.
Qed.

(** C6: the program probes the element type of each vector, not the
    vector, and prints 1 for [std::vector<CubeSphereObject>], 1 for
    [std::vector<B>] and 0 for [std::vector<C>], in this order and as
    digits, [boolalpha] being clear. *)
Theorem demo_output (sizeof_long : Z) (argv : list string) :
  sizeof_long ≠ 1%Z →
  Demo.run sizeof_long argv =
    inr (report "1" ++ report "1" ++ report "0", 0%Z) ∧
  boolalpha cout = false ∧
  (∀ (X : cpp_type) (σ : translation_unit),
      Demo.typename_member "test" (Demo.std_vector X) "value_type" σ = inr (X, σ) ∧
      temp_has_member sizeof_long (Demo.std_vector X) "heading" = Some false) ∧
  temp_has_member sizeof_long Demo.CubeSphereObject "heading" = Some true ∧
  temp_has_member sizeof_long Demo.B "heading" = Some true ∧
  temp_has_member sizeof_long Demo.C "heading" = Some false.
Proof.
  intros Hl. split; [|split; [|split; [|split; [|split]]]].
  - rewrite run_unfold. apply Z.eqb_neq in Hl. by rewrite Hl.
  - reflexivity.
  - intros X σ. split; [apply std_vector_value_type|].
    apply value_ill_formed; [done|]. apply std_vector_no_heading.
  - by apply value_well_formed.
  - by apply value_well_formed.
  - by apply value_ill_formed.
Qed.

Lemma demo_output_witness :
  Demo.run 8 [] = inr (report "1" ++ report "1" ++ report "0", 0%Z).
Proof. apply (proj1 (demo_output 8 [] ltac:(lia))). Defined.

(** C7: every run, whatever the command line, reports on exactly three
    instantiations: three times the fixed label, a result and an empty
    line; the exit status is 0. *)
Theorem demo_run (sizeof_long : Z) (argv : list string) :
  ∃ r1 r2 r3 : bool,
    Demo.run sizeof_long argv =
      inr (report (numeric r1) ++ report (numeric r2) ++ report (numeric r3), 0%Z).
Proof.
  exists true, true, (sizeof_long =? 1)%Z. apply run_unfold.
Qed.

(** * Further properties of the probe, the translation unit and the program *)

(** ** The yes/no encoding *)


(** ** Only the declarations named [M] matter *)

Lemma lookup_named_eq (ds ds' : list decl) (M : string) :
  named M ds = named M ds' → lookup ds M = lookup ds' M.
Proof. intros H. unfold lookup. by rewrite H. Qed.

Lemma address_of_entity_class (cls cls' : string) (e : entity cpp_type) :
  is_Some (address_of_entity cls e) → is_Some (address_of_entity cls' e).
Proof. intros H. apply address_of_entity_addressable. by apply address_of_entity_addressable in H. Qed.

Lemma address_of_member_frame (ctx cls cls' : string) (c c' : class_def cpp_type) (M : string) :
  bases c = bases c' →
  named M (members c) = named M (members c') →
  bool_decide (ctx ∈ friends c) = bool_decide (ctx ∈ friends c') →
  is_Some (address_of_member ctx (TClass cls (Some c)) M) →
  is_Some (address_of_member ctx (TClass cls' (Some c')) M).
Proof.
  intros Hb Hn Hf. unfold address_of_member.
  rewrite !member_lookup_class, (lookup_named_eq _ _ _ Hn), Hb, Hn, Hf.
  destruct (named M (members c')) as [|d0 l]; [done|]. cbn [f_decls f_class].
  destruct (lookup (members c') M) as [|d [|]]; try done.
  rewrite !reachable_own.
  destruct (accessible ctx c' d); [apply address_of_entity_class|done].
Qed.



(** ** Defining several probes *)

#[local] Set Warnings "-clear-no-such-hyp".

(** Token pasting gives different names different classes. *)
Lemma probe_class_inj (M N : string) : probe_class M = probe_class N → M = N.
Proof. unfold probe_class. apply String.app_inj. Qed.

Lemma toplevel_steps_cons (sizeof_long : Z) (d : toplevel) (ds : list toplevel)
    (σ : translation_unit) :
  toplevel_steps sizeof_long (d :: ds) σ =
    match toplevel_step sizeof_long d σ with
    | inl e => inl e
    | inr (_, σ1) => toplevel_steps sizeof_long ds σ1
    end.
Proof. reflexivity. Qed.

(** A definition whose class exists already stops the compilation, however
    late it comes. *)
Lemma define_all_clash (sizeof_long : Z) (Ms : list string) (N : string)
    (σ : translation_unit) :
  N ∈ Ms → probe_class N ∈ templates σ →
  ¬ compiles (toplevel_steps sizeof_long (Define <$> Ms) σ).
Proof.
  revert σ. induction Ms as [|M Ms IH]; intros σ HN Hin; [by apply elem_of_nil in HN|].
  rewrite fmap_cons, toplevel_steps_cons.
  destruct (toplevel_step sizeof_long (Define M) σ) as [e|[u σ1]] eqn:E;
    [by intros (? & ? & ?)|].
  apply elem_of_cons in HN as [->|HN].
  - simpl in E. unfold DEFINE_has_member in E.
    by rewrite (define_class_template_again _ _ Hin) in E.
  - apply toplevel_step_extends in E as [Ht _]. apply IH; [done|set_solver].
Qed.

(** X4: a run of [DEFINE_has_member] invocations whose classes are all new
    to the scope compiles exactly when no name is repeated; it then adds
    the generated classes to the scope and instantiates nothing. *)
Theorem define_all_iff_distinct (sizeof_long : Z) (Ms : list string)
    (σ : translation_unit) :
  Forall (λ M, probe_class M ∉ templates σ) Ms →
  (compiles (toplevel_steps sizeof_long (Define <$> Ms) σ) ↔ NoDup Ms) ∧
  (∀ σ', toplevel_steps sizeof_long (Define <$> Ms) σ = inr ((), σ') →
         templates σ' = list_to_set (probe_class <$> Ms) ∪ templates σ ∧
         specializations σ' = specializations σ).
Proof.
  revert σ. induction Ms as [|M Ms IH]; intros σ Hnew.
  - split.
    + split; [intros _; constructor|]. intros _. by exists (), σ.
    + intros σ' [= <-]. split; [set_solver|done].
  - apply Forall_cons in Hnew as [HM Hnew].
    rewrite fmap_cons, toplevel_steps_cons. simpl.
    unfold DEFINE_has_member, define_class_template.
    case_decide; [done|].
    set (σ1 := TU ({[probe_class M]} ∪ templates σ) (specializations σ)).
    destruct (decide (M ∈ Ms)) as [Hdup|Hfresh].
    + split.
      * split.
        -- intros Hc. exfalso.
           apply (define_all_clash sizeof_long Ms M σ1 Hdup); [|done].
           simpl. set_solver.
        -- intros [Hn _]%NoDup_cons. done.
      * intros σ' Hσ'. exfalso.
        apply (define_all_clash sizeof_long Ms M σ1 Hdup); [simpl; set_solver|].
        by exists (), σ'.
    + assert (Hnew1 : Forall (λ N, probe_class N ∉ templates σ1) Ms).
      { apply Forall_forall. intros N HN. simpl.
        rewrite Forall_forall in Hnew. specialize (Hnew N HN).
        intros [Heq%elem_of_singleton|?]%elem_of_union; [|done].
        apply probe_class_inj in Heq. by subst. }
      destruct (IH σ1 Hnew1) as [Hiff Hres]. split.
      * rewrite Hiff, NoDup_cons. tauto.
      * intros σ' Hσ'. destruct (Hres σ' Hσ') as [Ht Hs]. split; [|done].
        rewrite Ht. simpl. set_solver.
Qed.

Lemma define_all_iff_distinct_witness :
  compiles (toplevel_steps 8 (Define <$> ["width"; "length"]) unit_completed) ↔
  NoDup ["width"; "length"].
Proof.
  assert (H : Forall (λ M, probe_class M ∉ templates unit_completed)
                     ["width"; "length"]) by compute_done.
  exact (proj1 (define_all_iff_distinct 8 ["width"; "length"] unit_completed H)).
Defined.

(** ** What the generated class shows *)



(** ** The program on an arbitrary stream *)

Lemma append_assoc (s t u : string) : (s ++ t) ++ u = s ++ t ++ u.
Proof.
  induction s as [|a s IH]; [reflexivity|].
  change (String a ((s ++ t) ++ u) = String a (s ++ t ++ u)).
  by rewrite IH.
Qed.

Lemma put_string_put_string (s t : string) (os : ostream) :
  put_string t (put_string s os) = put_string (s ++ t) os.
Proof. unfold put_string. simpl. f_equal. apply append_assoc. Qed.

(** X7: the compiled program, started on a good stream that holds any
    text and whose formatting state is the initial one but possibly for
    [boolalpha], keeps what the stream holds, appends the three reports
    to it, renders the results as the [boolalpha] flag says (digits when
    it is clear, [true] and [false] when it is set), leaves the flag as it
    was and returns 0. *)
Theorem program_appends (sizeof_long : Z) :
  sizeof_long ≠ 1%Z →
  ∃ program σ,
    Demo.source_file sizeof_long empty_unit = inr (program, σ) ∧
    ∀ os : ostream,
      program os =
        (OStream (written os ++
                  report (rendered (boolalpha os) true) ++
                  report (rendered (boolalpha os) true) ++
                  report (rendered (boolalpha os) false))
                 (boolalpha os), 0%Z).
Proof.
  intros Hl.
  assert (∃ σ, Demo.source_file sizeof_long empty_unit =
    inr (λ os,
      let os := endl (endl (put_bool true (put_string "has_member(T, heading) " os))) in
      let os := endl (endl (put_bool true (put_string "has_member(T, heading) " os))) in
      let os := endl (endl (put_bool false (put_string "has_member(T, heading) " os))) in
      (os, 0%Z), σ)) as [σ E].
  { destruct sizeof_long as [|[p|p|]|p]; try (by destruct Hl); eexists; reflexivity. }
  eexists _, σ. split; [exact E|].
  intros os. cbv zeta. unfold endl, put_bool.
  rewrite !put_string_put_string.
  destruct os as [w [|]]; reflexivity.
Qed.

Lemma program_appends_witness :
  ∃ program σ,
    Demo.source_file 8 empty_unit = inr (program, σ) ∧
    ∀ os : ostream,
      program os =
        (OStream (written os ++
                  report (rendered (boolalpha os) true) ++
                  report (rendered (boolalpha os) true) ++
                  report (rendered (boolalpha os) false))
                 (boolalpha os), 0%Z).
Proof. apply (program_appends 8). lia. Defined.

(** ** Where instantiated values come from *)

Lemma uses_of_cons_use (M : string) (T : cpp_type) (ds : list toplevel) :
  uses_of M (Use T M :: ds) = T :: uses_of M ds.
Proof. unfold uses_of. simpl. by rewrite decide_True. Qed.

Lemma uses_of_cons_elem (M : string) (d : toplevel) (ds : list toplevel) (T : cpp_type) :
  T ∈ uses_of M ds → T ∈ uses_of M (d :: ds).
Proof.
  unfold uses_of. simpl. intros H.
  destruct d as [| |T' M']; try done.
  case_decide; [by apply list_elem_of_further|done].
Qed.

(** A specialization present after some declarations was either present
    before them or instantiated by one of the uses among them. *)
Lemma specialization_origin (sizeof_long : Z) (ds : list toplevel)
    (σ σ' : translation_unit) (M id : string) :
  toplevel_steps sizeof_long ds σ = inr ((), σ') →
  is_Some (specializations σ' !! (probe_class M, id)) →
  is_Some (specializations σ !! (probe_class M, id)) ∨
  ∃ T, T ∈ uses_of M ds ∧ type_id T = id.
Proof.
  revert σ. induction ds as [|d ds IH]; intros σ.
  { intros [= <-]. auto. }
  rewrite toplevel_steps_cons.
  destruct (toplevel_step sizeof_long d σ) as [e|[[] σ1]] eqn:E; [done|].
  intros Hsteps Hsome.
  destruct (IH σ1 Hsteps Hsome) as [H1|(T & HT & Hid)];
    [|right; exists T; eauto using uses_of_cons_elem].
  destruct d as [N|n|T N]; simpl in E.
  - apply define_class_template_inv in E as [_ ->]. auto.
  - apply define_class_template_inv in E as [_ ->]. auto.
  - unfold mbind, build_bind, use_temp_has_member in E.
    case_decide; [|done].
    destruct (specializations σ !! (probe_class N, type_id T)) as [w|] eqn:Ew.
    + injection E as <-. auto.
    + destruct (temp_has_member sizeof_long T N) as [w|]; [|done].
      injection E as <-. simpl in H1.
      destruct (decide ((probe_class N, type_id T) = (probe_class M, id))) as [Heq|Hne].
      * pose proof (f_equal fst Heq) as HN. pose proof (f_equal snd Heq) as Hid.
        cbn [fst snd] in HN, Hid. apply probe_class_inj in HN. subst N.
        right. exists T. rewrite uses_of_cons_use. split; [apply list_elem_of_here|done].
      * rewrite lookup_insert_ne in H1 by done. auto.
Qed.

(** X8: in a translation unit compiled from the top, the first use of the
    probe for a type yields the probe's value for the type as it is known
    at that use: when [DEFINE_has_member(member_name)] is among the
    declarations so far and no use among them was for a type of the same
    name, a use for [class_] compiles and returns
    [temp_has_member_##member_name<class_>::value] computed from [class_]. *)
Theorem first_use_is_current_value (sizeof_long : Z) (ds : list toplevel)
    (σ : translation_unit) (class_ : cpp_type) (member_name : string) :
  toplevel_steps sizeof_long ds empty_unit = inr ((), σ) →
  Define member_name ∈ ds →
  Forall (λ T, type_id T ≠ type_id class_) (uses_of member_name ds) →
  ∃ v σ',
    use_temp_has_member sizeof_long class_ member_name σ = inr (v, σ') ∧
    temp_has_member sizeof_long class_ member_name = Some v.
Proof.
  intros Hsteps Hdef Hfresh.
  assert (Hin : probe_class member_name ∈ templates σ).
  { clear Hfresh. revert Hsteps. generalize empty_unit as σ0.
    induction ds as [|d ds IH]; intros σ0; [by apply elem_of_nil in Hdef|].
    rewrite toplevel_steps_cons.
    destruct (toplevel_step sizeof_long d σ0) as [e|[[] σ1]] eqn:E; [done|].
    intros Hsteps. apply elem_of_cons in Hdef as [<-|Hdef]; [|by eapply IH].
    simpl in E. apply define_class_template_inv in E as [_ ->].
    apply toplevel_steps_extends in Hsteps as [Ht _].
    apply Ht. simpl. set_solver. }
  assert (Hnone : specializations σ !! (probe_class member_name, type_id class_) = None).
  { destruct (specializations σ !! _) as [w|] eqn:Ew; [|done]. exfalso.
    destruct (specialization_origin sizeof_long ds empty_unit σ member_name
                (type_id class_) Hsteps) as [[? H0]|(T & HT & Hid)]; [eauto| |].
    - simpl in H0. by rewrite lookup_empty in H0.
    - rewrite Forall_forall in Hfresh. by apply (Hfresh T HT). }
  destruct (use_temp_has_member_first sizeof_long class_ member_name σ Hin Hnone)
    as (v & Hv & Huse).
  eauto.
Qed.

Lemma first_use_is_current_value_witness :
  ∃ v σ',
    use_temp_has_member 8 Waypoint "heading" unit_used = inr (v, σ') ∧
    temp_has_member 8 Waypoint "heading" = Some v.
Proof.
  apply (first_use_is_current_value 8
           [Define "heading"; Use Demo.B "heading"; DefineTemplate "test"]).
  - vm_compute. reflexivity.
  - apply list_elem_of_here.
  - compute_done.
Defined.

(** ** [test] on a vector of any element type *)


